(** * luWidget: the tray / notification / autostart core of src-tauri/src/main.rs

    Shallow embedding of the Tauri commands and event handlers of
    [src/src-tauri/src/main.rs].  The platform (the OS autostart registry,
    the Tauri window registry, the tray menu) is modelled as an explicit
    world threaded through a small state monad; every platform call that
    returns a [Result] in the source may fail, and which calls fail during
    one command is fixed by a [Faults] record, so that every error path of
    the source is reachable in the model.  Each platform call is also
    recorded in a trace, so that statements about which calls a handler
    issues (and in which order) can be made. *)

From stdpp Require Import base gmap strings list.
From Stdlib Require Import Ascii String ZArith.

Open Scope string_scope.

(** ** Rust's [Result] *)

Inductive result (A E : Type) : Type :=
| Ok (a : A)
| Err (e : E).
Arguments Ok {A E} a.
Arguments Err {A E} e.

(** [Result::unwrap_or] *)
Definition unwrap_or {A E} (r : result A E) (d : A) : A :=
  match r with Ok a => a | Err _ => d end.

(** [Result::ok] *)
Definition result_ok {A E} (r : result A E) : option A :=
  match r with Ok a => Some a | Err _ => None end.

(** ** The platform world *)

(** [auto_launch::AutoLaunch]: built from an application name and path. *)
Record AutoLaunch := mkAutoLaunch { al_app_name : string; al_app_path : string }.

(** The options of a [WebviewWindowBuilder]. *)
Record WinConfig := mkWinConfig {
  c_url : string;
  c_title : string;
  c_width : nat;
  c_height : nat;
  c_decorations : bool;
  c_transparent : bool;
  c_always_on_top : bool;
  c_resizable : bool;
  c_skip_taskbar : bool;
  c_center : bool
}.

(** A live webview window: its creation serial, configuration, visibility,
    focus, and the scripts evaluated in its runtime context so far. *)
Record Win := mkWin {
  w_serial : nat;
  w_config : option WinConfig;
  w_visible : bool;
  w_focused : bool;
  w_scripts : list string
}.

(** The platform calls the core issues. *)
Inductive Call :=
| CIsEnabled | CEnable | CDisable
| CClose (label : string)
| CBuild (label : string)
| CEval (label : string) (script : string)
| CIsVisible (label : string)
| CShow (label : string)
| CHide (label : string)
| CSetFocus (label : string)
| CSetChecked (b : bool)
| CExit (code : Z).

Record World := mkWorld {
  registrar : option AutoLaunch;   (** [AutoLaunchState(Mutex<Option<AutoLaunch>>)] *)
  os_enabled : bool;               (** the OS "run at login" registration *)
  windows : gmap string Win;       (** the window registry, label -> window *)
  checked : bool;                  (** the [toggle_autostart] checkbox *)
  next_serial : nat;
  exit_code : option Z;
  trace : list Call
}.

(** Which platform calls fail during one command ([true] = the call fails). *)
Record Faults := mkFaults {
  f_is_enabled : bool;
  f_enable : bool;
  f_disable : bool;
  f_close : bool;
  f_build : bool;
  f_eval : bool;
  f_is_visible : bool;
  f_show : bool;
  f_hide : bool;
  f_set_focus : bool;
  f_set_checked : bool
}.

Definition no_faults : Faults :=
  mkFaults false false false false false false false false false false false.

(** ** State monad over the world *)

Definition M (A : Type) : Type := World -> A * World.

Definition ret {A} (a : A) : M A := fun w => (a, w).
Definition bind {A B} (m : M A) (k : A -> M B) : M B :=
  fun w => let '(a, w') := m w in k a w'.

Notation "x <- m ;; k" := (bind m (fun x => k))
  (at level 100, m at next level, right associativity).
Notation "m ;;; k" := (bind m (fun _ => k))
  (at level 100, right associativity).

Definition get : M World := fun w => (w, w).
Definition put (w' : World) : M unit := fun _ => (tt, w').

Definition set_registrar r w := mkWorld r (os_enabled w) (windows w) (checked w) (next_serial w) (exit_code w) (trace w).
Definition set_os_enabled b w := mkWorld (registrar w) b (windows w) (checked w) (next_serial w) (exit_code w) (trace w).
Definition set_windows ws w := mkWorld (registrar w) (os_enabled w) ws (checked w) (next_serial w) (exit_code w) (trace w).
Definition set_checked b w := mkWorld (registrar w) (os_enabled w) (windows w) b (next_serial w) (exit_code w) (trace w).
Definition set_next_serial n w := mkWorld (registrar w) (os_enabled w) (windows w) (checked w) n (exit_code w) (trace w).
Definition set_exit_code c w := mkWorld (registrar w) (os_enabled w) (windows w) (checked w) (next_serial w) c (trace w).

Definition modify (f : World -> World) : M unit := fun w => (tt, f w).

(** Record a platform call. *)
Definition emit (c : Call) : M unit :=
  fun w => (tt, mkWorld (registrar w) (os_enabled w) (windows w) (checked w)
                        (next_serial w) (exit_code w) (trace w ++ [c])).

Definition os_error : string := "os error".
Definition window_error : string := "window error".

(** ** Platform primitives *)

Section Platform.
Variable F : Faults.

(** [AutoLaunch::is_enabled]: reads the OS registration. *)
Definition al_is_enabled : M (result bool string) :=
  emit CIsEnabled ;;;
  w <- get ;;
  ret (if f_is_enabled F then Err os_error else Ok (os_enabled w)).

(** [AutoLaunch::enable] *)
Definition al_enable : M (result unit string) :=
  emit CEnable ;;;
  if f_enable F then ret (Err os_error)
  else modify (set_os_enabled true) ;;; ret (Ok tt).

(** [AutoLaunch::disable] *)
Definition al_disable : M (result unit string) :=
  emit CDisable ;;;
  if f_disable F then ret (Err os_error)
  else modify (set_os_enabled false) ;;; ret (Ok tt).

(** [AppHandle::get_webview_window]: a handle is the window's label. *)
Definition get_webview_window (label : string) : M (option string) :=
  w <- get ;;
  ret (match windows w !! label with Some _ => Some label | None => None end).

(** [WebviewWindow::close]: closing removes the window from the registry. *)
Definition win_close (label : string) : M (result unit string) :=
  emit (CClose label) ;;;
  if f_close F then ret (Err window_error)
  else modify (fun w => set_windows (delete label (windows w)) w) ;;; ret (Ok tt).

Definition label_exists_error : string := "a webview with this label already exists".

(** [WebviewWindowBuilder::build]: at most one window per label, so
    building under a label that is taken fails. *)
Definition win_build (label : string) (cfg : WinConfig) : M (result string string) :=
  emit (CBuild label) ;;;
  w <- get ;;
  match windows w !! label with
  | Some _ => ret (Err label_exists_error)
  | None =>
      if f_build F then ret (Err window_error)
      else
        let nw := mkWin (next_serial w) (Some cfg) true false [] in
        put (set_next_serial (S (next_serial w))
               (set_windows (<[label := nw]> (windows w)) w)) ;;;
        ret (Ok label)
  end.

Definition add_script (js : string) (x : Win) : Win :=
  mkWin (w_serial x) (w_config x) (w_visible x) (w_focused x) (w_scripts x ++ [js]).
Definition with_visible (b : bool) (x : Win) : Win :=
  mkWin (w_serial x) (w_config x) b (w_focused x) (w_scripts x).
Definition with_focus (x : Win) : Win :=
  mkWin (w_serial x) (w_config x) (w_visible x) true (w_scripts x).

Definition alter_window (f : Win -> Win) (label : string) : M unit :=
  modify (fun w => set_windows (alter f label (windows w)) w).

(** [WebviewWindow::eval]: runs a script in the window's runtime context. *)
Definition win_eval (label js : string) : M (result unit string) :=
  emit (CEval label js) ;;;
  if f_eval F then ret (Err window_error)
  else alter_window (add_script js) label ;;; ret (Ok tt).

(** [WebviewWindow::is_visible] *)
Definition win_is_visible (label : string) : M (result bool string) :=
  emit (CIsVisible label) ;;;
  w <- get ;;
  if f_is_visible F then ret (Err window_error)
  else ret (Ok (match windows w !! label with Some x => w_visible x | None => false end)).

(** [WebviewWindow::show], [hide], [set_focus] *)
Definition win_show (label : string) : M (result unit string) :=
  emit (CShow label) ;;;
  if f_show F then ret (Err window_error)
  else alter_window (with_visible true) label ;;; ret (Ok tt).

Definition win_hide (label : string) : M (result unit string) :=
  emit (CHide label) ;;;
  if f_hide F then ret (Err window_error)
  else alter_window (with_visible false) label ;;; ret (Ok tt).

Definition win_set_focus (label : string) : M (result unit string) :=
  emit (CSetFocus label) ;;;
  if f_set_focus F then ret (Err window_error)
  else alter_window with_focus label ;;; ret (Ok tt).

(** [CheckMenuItem::set_checked] *)
Definition menu_set_checked (b : bool) : M (result unit string) :=
  emit (CSetChecked b) ;;;
  if f_set_checked F then ret (Err window_error)
  else modify (set_checked b) ;;; ret (Ok tt).

(** [AppHandle::exit] *)
Definition app_exit (code : Z) : M unit :=
  emit (CExit code) ;;; modify (set_exit_code (Some code)).

End Platform.

(** ** The commands *)

(** [toggle_auto_launch] (main.rs lines 18-35).  The mutex guard is held
    for the whole body; the interleaving of two calls is modelled in
    module [Concurrent] below. *)
Definition toggle_auto_launch (F : Faults) : M (result bool string) :=
  w <- get ;;
  match registrar w with
  | Some _ =>
      e <- al_is_enabled F ;;
      let is_enabled := unwrap_or e false in
      if is_enabled then
        r <- al_disable F ;;
        match r with Err e => ret (Err e) | Ok _ => ret (Ok false) end
      else
        r <- al_enable F ;;
        match r with Err e => ret (Err e) | Ok _ => ret (Ok true) end
  | None => ret (Err "AutoLaunch not initialized")
  end.

(** [exit_app] *)
Definition exit_app : M unit := app_exit 0.

(** ** [serde_json::to_string] on a [String]

    serde_json writes a string as a double-quoted JSON literal: the double
    quote and the backslash are escaped by a preceding backslash, the control characters
    0x08, 0x09, 0x0A, 0x0C, 0x0D as [\b], [\t], [\n], [\f], [\r], every
    other byte below 0x20 as [\u00XX] with lower-case hex digits, and all
    other bytes are copied. *)

Definition dquote : ascii := ascii_of_nat 34.
Definition bslash : ascii := ascii_of_nat 92.

Definition hex_digit (n : nat) : ascii :=
  match n with
  | 0 => "0" | 1 => "1" | 2 => "2" | 3 => "3" | 4 => "4" | 5 => "5"
  | 6 => "6" | 7 => "7" | 8 => "8" | 9 => "9" | 10 => "a" | 11 => "b"
  | 12 => "c" | 13 => "d" | 14 => "e" | _ => "f"
  end%char.

Definition escape_char (c : ascii) : string :=
  let n := nat_of_ascii c in
  if Nat.eqb n 34 then String bslash (String dquote EmptyString)
  else if Nat.eqb n 92 then String bslash (String bslash EmptyString)
  else if Nat.eqb n 8 then String bslash "b"
  else if Nat.eqb n 9 then String bslash "t"
  else if Nat.eqb n 10 then String bslash "n"
  else if Nat.eqb n 12 then String bslash "f"
  else if Nat.eqb n 13 then String bslash "r"
  else if Nat.ltb n 32 then
    String bslash ("u00" ++ String (hex_digit (n / 16)) (String (hex_digit (n mod 16)) EmptyString))
  else String c EmptyString.

Fixpoint json_escape (s : string) : string :=
  match s with
  | EmptyString => EmptyString
  | String c s' => escape_char c ++ json_escape s'
  end.

Definition json_to_string (s : string) : string :=
  String dquote (json_escape s ++ String dquote EmptyString).

(** ** Notification window *)

Definition notification_config : WinConfig :=
  {| c_url := "notification.html"; c_title := "Notification";
     c_width := 600; c_height := 200; c_decorations := false;
     c_transparent := true; c_always_on_top := true; c_resizable := false;
     c_skip_taskbar := true; c_center := true |}.

Definition notification_script (message : string) : string :=
  "window.__NOTIFICATION_MESSAGE__ = " ++ json_to_string message.

(** [show_notification] (main.rs lines 37-65). *)
Definition show_notification (F : Faults) (message : string) : M (result unit string) :=
  o <- get_webview_window "notification" ;;
  (match o with
   | Some window => _ <- win_close F window ;; ret tt
   | None => ret tt
   end) ;;;
  r <- win_build F "notification" notification_config ;;
  match r with
  | Err e => ret (Err e)
  | Ok window => _ <- win_eval F window (notification_script message) ;; ret (Ok tt)
  end.

(** [close_notification] (main.rs lines 67-72). *)
Definition close_notification (F : Faults) : M unit :=
  o <- get_webview_window "notification" ;;
  match o with
  | Some window => _ <- win_close F window ;; ret tt
  | None => ret tt
  end.

(** ** Tray icon and menu *)

Inductive MouseButton := Left | Right | Middle.
Inductive MouseButtonState := Up | Down.

Inductive TrayIconEvent :=
| Click (button : MouseButton) (button_state : MouseButtonState)
| DoubleClick (button : MouseButton)
| Enter | Move | Leave.

(** The tray click handler passed to [on_tray_icon_event] (main.rs lines 132-153). *)
Definition on_tray_icon_event (F : Faults) (event : TrayIconEvent) : M unit :=
  match event with
  | Click Left Up =>
      o <- get_webview_window "main" ;;
      match o with
      | Some window =>
          v <- win_is_visible F window ;;
          match v with
          | Ok true => _ <- win_hide F window ;; ret tt
          | _ => _ <- win_show F window ;; _ <- win_set_focus F window ;; ret tt
          end
      | None => ret tt
      end
  | _ => ret tt
  end.

Inductive MenuItemKind := CheckMenuItem | PlainMenuItem.

(** The tray menu built in [main]: [toggle_autostart] (a check item), [quit]. *)
Definition tray_menu : list (string * MenuItemKind) :=
  [("toggle_autostart", CheckMenuItem); ("quit", PlainMenuItem)].

(** [Menu::get] followed by [as_check_menuitem]. *)
Definition menu_get_check (id : string) : option string :=
  match find (fun it => bool_decide (fst it = id)) tray_menu with
  | Some (i, CheckMenuItem) => Some i
  | _ => None
  end.

(** The menu handler passed to [on_menu_event] (main.rs lines 114-131). *)
Definition on_menu_event (F : Faults) (id : string) : M unit :=
  if bool_decide (id = "toggle_autostart") then
    r <- toggle_auto_launch F ;;
    match r with
    | Ok new_state =>
        match menu_get_check "toggle_autostart" with
        | Some _ => _ <- menu_set_checked F new_state ;; ret tt
        | None => ret tt
        end
    | Err _ => ret tt
    end
  else if bool_decide (id = "quit") then app_exit 0
  else ret tt.

(** ** Start-up (the auto-launch part of the [setup] closure, main.rs lines 76-101)

    [exe] is the result of [std::env::current_exe()] followed by
    [to_str()] ([Ok None] when the path is not valid UTF-8), and
    [al_build_fails] says whether [AutoLaunchBuilder::build] fails. *)
Definition setup_auto_launch (F : Faults) (exe : result (option string) string)
    (al_build_fails : bool) : M unit :=
  let auto_launch :=
    match exe with
    | Ok (Some exe_str) =>
        result_ok (if al_build_fails then Err os_error
                   else Ok (mkAutoLaunch "luWidget" exe_str))
    | _ => None
    end in
  q <- (match auto_launch with
        | Some _ => r <- al_is_enabled F ;; ret (result_ok r)
        | None => ret None
        end) ;;
  let is_enabled := default false q in
  modify (set_registrar auto_launch) ;;;
  modify (set_checked is_enabled).

(** ** Reading back a JSON string literal

    The notification view reads [window.__NOTIFICATION_MESSAGE__] as a
    JavaScript value; [json_decode_string] is the JSON string-literal
    grammar (RFC 8259, section 7) on byte strings, used to state that the
    injected value decodes to the message. *)

Definition hex_val (c : ascii) : option nat :=
  let n := nat_of_ascii c in
  if (Nat.leb 48 n && Nat.leb n 57)%nat then Some (n - 48)%nat
  else if (Nat.leb 97 n && Nat.leb n 102)%nat then Some (n - 87)%nat
  else if (Nat.leb 65 n && Nat.leb n 70)%nat then Some (n - 55)%nat
  else None.

Definition cons_opt (c : ascii) (o : option string) : option string :=
  match o with Some t => Some (String c t) | None => None end.

(** The body of a string literal, up to and including its closing quote,
    which must end the input. *)
Fixpoint json_unescape (s : string) : option string :=
  match s with
  | EmptyString => None
  | String c rest =>
      if Ascii.eqb c dquote then
        match rest with EmptyString => Some EmptyString | _ => None end
      else if Ascii.eqb c bslash then
        match rest with
        | EmptyString => None
        | String e rest' =>
            let n := nat_of_ascii e in
            if Nat.eqb n 34 then cons_opt dquote (json_unescape rest')
            else if Nat.eqb n 92 then cons_opt bslash (json_unescape rest')
            else if Nat.eqb n 47 then cons_opt "/"%char (json_unescape rest')
            else if Nat.eqb n 98 then cons_opt (ascii_of_nat 8) (json_unescape rest')
            else if Nat.eqb n 116 then cons_opt (ascii_of_nat 9) (json_unescape rest')
            else if Nat.eqb n 110 then cons_opt (ascii_of_nat 10) (json_unescape rest')
            else if Nat.eqb n 102 then cons_opt (ascii_of_nat 12) (json_unescape rest')
            else if Nat.eqb n 114 then cons_opt (ascii_of_nat 13) (json_unescape rest')
            else if Nat.eqb n 117 then
              match rest' with
              | String h1 (String h2 (String h3 (String h4 r))) =>
                  match hex_val h1, hex_val h2, hex_val h3, hex_val h4 with
                  | Some a, Some b, Some c', Some d =>
                      let code := (a * 4096 + b * 256 + c' * 16 + d)%nat in
                      if Nat.ltb code 256 then cons_opt (ascii_of_nat code) (json_unescape r)
                      else None
                  | _, _, _, _ => None
                  end
              | _ => None
              end
            else None
        end
      else if Nat.ltb (nat_of_ascii c) 32 then None
      else cons_opt c (json_unescape rest)
  end.

Definition json_decode_string (s : string) : option string :=
  match s with
  | String c rest => if Ascii.eqb c dquote then json_unescape rest else None
  | EmptyString => None
  end.

(** Every character of a string satisfies [p]. *)
Fixpoint string_forall (p : ascii -> bool) (s : string) : bool :=
  match s with
  | EmptyString => true
  | String c s' => p c && string_forall p s'
  end.

(** Characters serde_json copies unchanged: neither a control character,
    nor the double quote, nor the backslash. *)
Definition json_plain_char (c : ascii) : bool :=
  let n := nat_of_ascii c in
  Nat.leb 32 n && negb (Nat.eqb n 34) && negb (Nat.eqb n 92).

Definition not_control (c : ascii) : bool := Nat.leb 32 (nat_of_ascii c).

(** ** Concurrent calls of [toggle_auto_launch]

    Two callers (the UI command and the tray menu handler) run the body of
    [toggle_auto_launch] as a sequence of atomic steps: taking the mutex
    guard (line 21), checking the registrar and querying the OS (lines
    23-24), the enable/disable call (lines 25-31), and dropping the guard on
    return.  The OS calls are the ones of the sequential model. *)
Module Concurrent.

Inductive Tid := T1 | T2.

Definition other (t : Tid) : Tid := match t with T1 => T2 | T2 => T1 end.

Definition tid_eqb (a b : Tid) : bool :=
  match a, b with T1, T1 | T2, T2 => true | _, _ => false end.

Inductive pc :=
| Start
| Holding                                      (** guard taken *)
| Queried (is_enabled : bool)                  (** line 24 done *)
| Finished (before : option bool) (r : result bool string).

Record Sys := mkSys {
  lock : option Tid;        (** the holder of [AutoLaunchState]'s mutex *)
  world : World;
  pcs : Tid -> pc
}.

Definition upd (f : Tid -> pc) (t : Tid) (p : pc) : Tid -> pc :=
  fun t' => if tid_eqb t' t then p else f t'.

Inductive step (tf : Tid -> Faults) : Sys -> Sys -> Prop :=
| step_lock t s :
    pcs s t = Start -> lock s = None ->
    step tf s (mkSys (Some t) (world s) (upd (pcs s) t Holding))
| step_uninit t s :
    pcs s t = Holding -> registrar (world s) = None ->
    step tf s (mkSys None (world s)
                 (upd (pcs s) t (Finished None (Err "AutoLaunch not initialized"))))
| step_query t s al :
    pcs s t = Holding -> registrar (world s) = Some al ->
    step tf s (let '(e, w') := al_is_enabled (tf t) (world s) in
               mkSys (lock s) w' (upd (pcs s) t (Queried (unwrap_or e false))))
| step_act t s b :
    pcs s t = Queried b ->
    step tf s (let '(r, w') := (if b then al_disable (tf t) else al_enable (tf t)) (world s) in
               mkSys None w'
                 (upd (pcs s) t (Finished (Some b)
                    (match r with Ok _ => Ok (negb b) | Err e => Err e end)))).

Definition init (w : World) : Sys := mkSys None w (fun _ => Start).

Definition in_cs (p : pc) : bool :=
  match p with Holding | Queried _ => true | _ => false end.

(** The invariant of the interleavings: the guard holder is the only
    caller inside the critical section, a caller that has queried saw the
    current OS state, and a caller that finished successfully from
    before-state [b] left [negb b] for the other caller to see. *)
Definition lock_ok (s : Sys) : Prop :=
  match lock s with
  | None => forall t, in_cs (pcs s t) = false
  | Some t => in_cs (pcs s t) = true /\ in_cs (pcs s (other t)) = false
  end.

(** What thread [t], finished with before-state [b], knows about the other. *)
Definition other_ok (s : Sys) (t : Tid) (b : bool) : Prop :=
  match pcs s (other t) with
  | Finished (Some b') (Ok _) => b' = negb b
  | _ => os_enabled (world s) = negb b
  end.

Definition Inv (s : Sys) : Prop :=
  lock_ok s /\
  (forall t b, pcs s t = Queried b -> os_enabled (world s) = b) /\
  (forall t b r, pcs s t = Finished (Some b) (Ok r) -> r = negb b /\ other_ok s t b).

End Concurrent.

(** ** Concrete scenarios *)

Definition query_fails : Faults :=
  mkFaults true false false false false false false false false false false.

Definition close_fails : Faults :=
  mkFaults false false false true false false false false false false false.

Definition installed : AutoLaunch := mkAutoLaunch "luWidget" "/opt/luWidget".

(** A notification window showing the message ["old"]. *)
Definition old_note : Win :=
  mkWin 0 (Some notification_config) true false [notification_script "old"].

Definition world_with_old_note : World :=
  mkWorld (Some installed) false (<["notification" := old_note]> ∅) false 1 None [].

Definition enabled_world : World := mkWorld (Some installed) true ∅ true 0 None [].

Definition serial_world : World := mkWorld (Some installed) false ∅ false 0 None [].

(** ** Proof support *)

Ltac unfold_cmds :=
  unfold toggle_auto_launch, show_notification, close_notification,
    on_tray_icon_event, on_menu_event, setup_auto_launch, exit_app,
    al_is_enabled, al_enable, al_disable, get_webview_window, win_close,
    win_build, win_eval, win_is_visible, win_show, win_hide, win_set_focus,
    menu_set_checked, app_exit, alter_window, modify, emit, get, put, bind, ret
    in *.

(** The successful path of [toggle_auto_launch]: one query, then the
    opposite registration call, and the new state is returned. *)
Lemma toggle_auto_launch_success (F : Faults) (w : World) (al : AutoLaunch) :
  registrar w = Some al ->
  f_is_enabled F = false -> f_enable F = false -> f_disable F = false ->
  toggle_auto_launch F w =
    (Ok (negb (os_enabled w)),
     mkWorld (registrar w) (negb (os_enabled w)) (windows w) (checked w)
       (next_serial w) (exit_code w)
       (trace w ++ [CIsEnabled; if os_enabled w then CDisable else CEnable])).
Proof.
  intros Hr Hq He Hd. destruct w as [reg os ws ck ns ec tr]; simpl in *; subst.
  unfold_cmds; simpl. rewrite Hq. simpl.
  destruct os; simpl; [rewrite Hd | rewrite He]; simpl;
    rewrite <- app_assoc; reflexivity.
Qed.

(** ** Claims about [toggle_auto_launch] *)

(** C1 (amended): for an initialized registrar, whenever the OS
    enabled-state query and the enable/disable call succeed,
    [toggle_auto_launch] flips the OS registration and returns [Ok] of the
    new state; from [enabled = false] a first call returns [true], a second
    returns [false], and the original state is restored. *)
Theorem toggle_auto_launch_involutive (F1 F2 : Faults) (w : World) (al : AutoLaunch) :
  registrar w = Some al ->
  f_is_enabled F1 = false -> f_enable F1 = false -> f_disable F1 = false ->
  f_is_enabled F2 = false -> f_enable F2 = false -> f_disable F2 = false ->
  let '(r1, w1) := toggle_auto_launch F1 w in
  let '(r2, w2) := toggle_auto_launch F2 w1 in
  r1 = Ok (negb (os_enabled w)) /\ os_enabled w1 = negb (os_enabled w) /\
  r2 = Ok (os_enabled w) /\ os_enabled w2 = os_enabled w /\
  (os_enabled w = false -> r1 = Ok true /\ r2 = Ok false).
Proof.
  intros Hr Hq1 He1 Hd1 Hq2 He2 Hd2.
  rewrite (toggle_auto_launch_success F1 w al Hr Hq1 He1 Hd1).
  erewrite (toggle_auto_launch_success F2 _ al) by (simpl; assumption). simpl.
  rewrite negb_involutive.
  repeat split; try reflexivity.
  all: match goal with H : os_enabled _ = false |- _ => rewrite H; reflexivity end.
Qed.

Lemma toggle_auto_launch_involutive_witness :
  registrar (mkWorld (Some (mkAutoLaunch "luWidget" "/opt/luWidget")) false ∅ false 0 None [])
    = Some (mkAutoLaunch "luWidget" "/opt/luWidget") /\
  (let '(r1, w1) := toggle_auto_launch no_faults
                      (mkWorld (Some (mkAutoLaunch "luWidget" "/opt/luWidget")) false ∅ false 0 None []) in
   let '(r2, w2) := toggle_auto_launch no_faults w1 in
   r1 = Ok (negb false) /\ os_enabled w1 = negb false /\
   r2 = Ok false /\ os_enabled w2 = false /\
   (false = false -> r1 = Ok true /\ r2 = Ok false)).
Proof.
  split; [reflexivity|].
  exact (toggle_auto_launch_involutive no_faults no_faults
           (mkWorld (Some (mkAutoLaunch "luWidget" "/opt/luWidget")) false ∅ false 0 None [])
           (mkAutoLaunch "luWidget" "/opt/luWidget")
           eq_refl eq_refl eq_refl eq_refl eq_refl eq_refl eq_refl).
Defined.

(** C1 counterexample: with the registration enabled and the enabled-state
    query failing, [toggle_auto_launch] returns [Ok true] and leaves the
    registration enabled: the state is not flipped, and a second such call
    returns [Ok true] again. *)
Lemma toggle_auto_launch_query_failure_no_flip :
  let w := mkWorld (Some (mkAutoLaunch "luWidget" "/opt/luWidget")) true ∅ true 0 None [] in
  let '(r1, w1) := toggle_auto_launch query_fails w in
  let '(r2, w2) := toggle_auto_launch query_fails w1 in
  os_enabled w = true /\ r1 = Ok true /\ os_enabled w1 = true /\
  r2 = Ok true /\ os_enabled w2 = true.
Proof. vm_compute. repeat split. Qed.

(** C4: with the registrar absent, [toggle_auto_launch] returns the error
    ["AutoLaunch not initialized"] and changes nothing (no OS call is
    issued); through the menu, the checkbox is left as it was as well. *)
Theorem toggle_auto_launch_uninitialized (F : Faults) (w : World) :
  registrar w = None ->
  toggle_auto_launch F w = (Err "AutoLaunch not initialized", w) /\
  on_menu_event F "toggle_autostart" w = (tt, w).
Proof.
  intros Hr. unfold on_menu_event, toggle_auto_launch, bind, get, ret.
  case_bool_decide; [|congruence]. rewrite Hr. split; reflexivity.
Qed.

Lemma toggle_auto_launch_uninitialized_witness :
  registrar (mkWorld None true ∅ true 3 None []) = None /\
  toggle_auto_launch no_faults (mkWorld None true ∅ true 3 None []) =
    (Err "AutoLaunch not initialized", mkWorld None true ∅ true 3 None []) /\
  on_menu_event no_faults "toggle_autostart" (mkWorld None true ∅ true 3 None []) =
    (tt, mkWorld None true ∅ true 3 None []).
Proof.
  split; [reflexivity|].
  exact (toggle_auto_launch_uninitialized no_faults (mkWorld None true ∅ true 3 None []) eq_refl).
Defined.

(** C7: a failing enabled-state query is read as [false].  In
    [toggle_auto_launch] (on any world holding a registrar) the query
    error is not returned: the call takes the enable branch (it issues
    [enable], exactly as for a disabled registration) and returns
    [Ok true] or the error of [enable].  At start-up, from any world, in
    particular the one before setup where no registrar is stored yet, the
    registrar is stored, the query is issued once and changes nothing,
    and the checkbox is initialized unchecked whatever the OS state. *)
Theorem autostart_query_error_is_false (F : Faults) (w : World) (p : string) :
  f_is_enabled F = true ->
  (forall al, registrar w = Some al ->
   let '(r, w') := toggle_auto_launch F w in
   r = (if f_enable F then Err os_error else Ok true) /\
   trace w' = (trace w ++ [CIsEnabled; CEnable])%list /\
   os_enabled w' = (if f_enable F then os_enabled w else true)) /\
  (let '(_, w') := setup_auto_launch F (Ok (Some p)) false w in
   registrar w' = Some (mkAutoLaunch "luWidget" p) /\ checked w' = false /\
   os_enabled w' = os_enabled w /\ trace w' = (trace w ++ [CIsEnabled])%list).
Proof.
  intros Hq. destruct w as [reg os ws ck ns ec tr]. split.
  - intros al Hr; simpl in Hr; subst.
    unfold_cmds; simpl. rewrite Hq. simpl.
    destruct (f_enable F); simpl; rewrite <- ?app_assoc; repeat split.
  - unfold_cmds; simpl. rewrite Hq. simpl. split_and!; reflexivity.
Qed.

Lemma autostart_query_error_is_false_witness :
  f_is_enabled query_fails = true /\
  (let '(r, w') := toggle_auto_launch query_fails
                     (mkWorld (Some (mkAutoLaunch "luWidget" "/opt/luWidget")) true ∅ true 0 None []) in
   r = Ok true /\ trace w' = ([] ++ [CIsEnabled; CEnable])%list /\ os_enabled w' = true) /\
  (let '(_, w') := setup_auto_launch query_fails (Ok (Some "/opt/luWidget")) false
                     (mkWorld None true ∅ false 0 None []) in
   registrar w' = Some (mkAutoLaunch "luWidget" "/opt/luWidget") /\ checked w' = false /\
   os_enabled w' = true /\ trace w' = ([] ++ [CIsEnabled])%list).
Proof.
  split; [reflexivity|]. split.
  - exact (proj1 (autostart_query_error_is_false query_fails
             (mkWorld (Some (mkAutoLaunch "luWidget" "/opt/luWidget")) true ∅ true 0 None [])
             "/opt/luWidget" eq_refl) (mkAutoLaunch "luWidget" "/opt/luWidget") eq_refl).
  - exact (proj2 (autostart_query_error_is_false query_fails
             (mkWorld None true ∅ false 0 None []) "/opt/luWidget" eq_refl)).
Defined.

(** ** The JSON payload reads back as the message *)

Lemma string_app_assoc (a b c : string) : (a ++ b) ++ c = a ++ (b ++ c).
Proof. induction a as [|x a IH]; [reflexivity | exact (f_equal (String x) IH)]. Qed.

Lemma json_unescape_escape_char (c : ascii) (rest : string) :
  json_unescape (escape_char c ++ rest) = cons_opt c (json_unescape rest).
Proof. destruct c as [[] [] [] [] [] [] [] []]; reflexivity. Qed.

Lemma json_unescape_escape (s : string) :
  json_unescape (json_escape s ++ String dquote EmptyString) = Some s.
Proof.
  induction s as [|c s IH]; cbn [json_escape]; [reflexivity|].
  rewrite string_app_assoc, json_unescape_escape_char, IH. reflexivity.
Qed.

Lemma json_decode_to_string (s : string) : json_decode_string (json_to_string s) = Some s.
Proof. unfold json_decode_string, json_to_string. simpl. apply json_unescape_escape. Qed.

(** ** Claims about the notification window *)

Ltac map_simpl :=
  repeat first [ rewrite lookup_delete_eq | rewrite lookup_insert_eq
               | rewrite lookup_alter_eq | rewrite alter_insert_eq ]; simpl.

(** C2 (amended): [show_notification] closes an existing notification
    window first and ignores a failure of that close.  When no close fails
    and construction succeeds it returns [Ok]; whenever it returns [Ok],
    the (single, since the registry keeps one window per label)
    notification window is the newly built one, and its runtime context
    received the newest message unless that delivery failed.  When the old
    window's close fails, construction under the still-taken label fails,
    the error is returned and the old window is left as it was. *)
Theorem show_notification_newest_wins (F : Faults) (w : World) (message : string) :
  let '(r, w') := show_notification F message w in
  (f_close F = false -> f_build F = false -> r = Ok tt) /\
  (r = Ok tt ->
     exists x, windows w' !! "notification" = Some x /\
       w_serial x = next_serial w /\
       w_config x = Some notification_config /\
       w_scripts x = (if f_eval F then [] else [notification_script message])) /\
  (forall old, windows w !! "notification" = Some old -> f_close F = true ->
     r = Err label_exists_error /\ windows w' = windows w).
Proof.
  destruct w as [reg os ws ck ns ec tr]. unfold_cmds; simpl.
  destruct (ws !! "notification") as [old|] eqn:E; simpl.
  - destruct (f_close F) eqn:Hc; simpl.
    + rewrite E; simpl. repeat split; intros; try discriminate; congruence.
    + map_simpl. destruct (f_build F); simpl; [|destruct (f_eval F); simpl; map_simpl];
        repeat split; intros; try discriminate; try congruence;
        eexists; repeat split.
  - map_simpl. rewrite E. destruct (f_build F); simpl; [|destruct (f_eval F); simpl; map_simpl];
      repeat split; intros; try discriminate; try congruence;
      eexists; repeat split.
Qed.

(** C2 counterexample: when the close of the open notification window
    fails, the new window cannot be built under the taken label; the one
    notification window left carries the old message, not the newest. *)
Lemma show_notification_close_failure_keeps_old_message :
  let '(r, w') := show_notification close_fails "Hello" world_with_old_note in
  r = Err label_exists_error /\
  windows w' !! "notification" = Some old_note /\
  ~ (exists x, windows w' !! "notification" = Some x /\
               In (notification_script "Hello") (w_scripts x)).
Proof.
  vm_compute. split; [reflexivity|]. split; [reflexivity|].
  intros [x [Hx Hin]]. injection Hx as <-. simpl in Hin.
  destruct Hin as [H|[]]. discriminate.
Qed.

(** C6 (amended): the payload, the message as a JSON string literal that
    decodes back to the message, is delivered by a single [eval] issued
    only after construction succeeded.  If construction fails the error is
    returned, no payload delivery is attempted and no new notification
    window exists; only a previous notification window whose close failed
    (which is what makes construction fail) is left in place. *)
Theorem show_notification_payload_after_build (F : Faults) (w : World) (message : string) :
  let pre := match windows w !! "notification" with
             | Some _ => [CClose "notification"] | None => [] end in
  let '(r, w') := show_notification F message w in
  notification_script message = "window.__NOTIFICATION_MESSAGE__ = " ++ json_to_string message /\
  json_decode_string (json_to_string message) = Some message /\
  match r with
  | Ok _ =>
      trace w' = (trace w ++ pre ++
                  [CBuild "notification"; CEval "notification" (notification_script message)])%list
  | Err _ =>
      trace w' = (trace w ++ pre ++ [CBuild "notification"])%list /\
      windows w' = match windows w !! "notification" with
                   | Some _ => if f_close F then windows w else delete "notification" (windows w)
                   | None => windows w
                   end
  end.
Proof.
  pose proof (json_decode_to_string message) as Hj.
  destruct w as [reg os ws ck ns ec tr]. unfold_cmds; simpl.
  destruct (ws !! "notification") as [old|] eqn:E; simpl.
  - destruct (f_close F) eqn:Hc; simpl.
    + rewrite E; simpl. repeat split; auto. rewrite <- ?app_assoc; reflexivity.
    + map_simpl. destruct (f_build F); simpl; [|destruct (f_eval F); simpl];
        repeat split; auto; rewrite <- ?app_assoc; reflexivity.
  - rewrite E. destruct (f_build F); simpl; [|destruct (f_eval F); simpl];
      repeat split; auto; rewrite <- ?app_assoc; reflexivity.
Qed.

(** C6 counterexample: a failed [show_notification] can leave a
    notification window on screen (the old one, whose close failed). *)
Lemma show_notification_failure_leaves_window :
  let '(r, w') := show_notification close_fails "Hello" world_with_old_note in
  r = Err label_exists_error /\
  (exists x, windows w' !! "notification" = Some x /\ w_visible x = true).
Proof. vm_compute. split; [reflexivity|]. eexists; split; reflexivity. Qed.

(** C8 (amended): [close_notification] closes the notification window if
    one exists and changes nothing otherwise; it returns [()], so no error
    surfaces; afterwards no notification window exists unless its close
    call failed, in which case the window is left in place. *)
Theorem close_notification_effect (F : Faults) (w : World) :
  let '(u, w') := close_notification F w in
  u = tt /\
  (windows w !! "notification" = None -> w' = w) /\
  (forall x, windows w !! "notification" = Some x ->
     trace w' = (trace w ++ [CClose "notification"])%list /\
     windows w' = (if f_close F then windows w else delete "notification" (windows w))) /\
  (f_close F = false -> windows w' !! "notification" = None).
Proof.
  destruct w as [reg os ws ck ns ec tr]. unfold_cmds; simpl.
  destruct (ws !! "notification") as [old|] eqn:E; simpl.
  - destruct (f_close F) eqn:Hc; simpl; repeat split; intros; try discriminate;
      try congruence; map_simpl; reflexivity.
  - repeat split; intros; try discriminate; congruence.
Qed.

(** C8 counterexample: when closing the open notification window fails,
    a notification window still exists after [close_notification]. *)
Lemma close_notification_failure_keeps_window :
  let '(_, w') := close_notification close_fails world_with_old_note in
  windows w' !! "notification" = Some old_note.
Proof. vm_compute. reflexivity. Qed.

(** ** Claims about the tray click and the tray menu *)

(** C3: on a left-button release, with a main window present, the handler
    queries its visibility; if the query answers visible it hides the
    window, and otherwise (not visible, or the query failed) it shows the
    window and then focuses it, issuing no hide.  The window becomes
    visible and focused unless those calls themselves fail. *)
Theorem tray_click_main_window (F : Faults) (w : World) (x : Win) :
  windows w !! "main" = Some x ->
  let '(_, w') := on_tray_icon_event F (Click Left Up) w in
  (f_is_visible F = false -> w_visible x = true ->
     trace w' = (trace w ++ [CIsVisible "main"; CHide "main"])%list /\
     exists y, windows w' !! "main" = Some y /\ w_visible y = f_hide F) /\
  (f_is_visible F = true \/ w_visible x = false ->
     trace w' = (trace w ++ [CIsVisible "main"; CShow "main"; CSetFocus "main"])%list /\
     exists y, windows w' !! "main" = Some y /\
       w_visible y = (if f_show F then w_visible x else true) /\
       w_focused y = (if f_set_focus F then w_focused x else true)).
Proof.
  intros Hx. destruct w as [reg os ws ck ns ec tr]; simpl in Hx.
  unfold_cmds; simpl. rewrite Hx; simpl.
  destruct x as [sr cf vis foc sc]; simpl.
  destruct (f_is_visible F) eqn:Hq, vis; simpl.
  all: rewrite ?Hx; simpl; destruct (f_show F), (f_set_focus F), (f_hide F); simpl.
  all: split; [intros H1 H2 | intros H1]; try discriminate;
    try (destruct H1; discriminate);
    (split; [rewrite <- ?app_assoc; reflexivity|]);
    map_simpl; rewrite ?Hx; simpl; eexists; repeat split.
Qed.

Lemma tray_click_main_window_witness :
  windows (mkWorld None false (<["main" := mkWin 0 None true false []]> ∅) false 1 None [])
    !! "main" = Some (mkWin 0 None true false []) /\
  (let '(_, w') := on_tray_icon_event (mkFaults false false false false false false true false false false false)
                     (Click Left Up)
                     (mkWorld None false (<["main" := mkWin 0 None true false []]> ∅) false 1 None []) in
   (true = false -> true = true ->
      trace w' = ([] ++ [CIsVisible "main"; CHide "main"])%list /\
      exists y, windows w' !! "main" = Some y /\ w_visible y = false) /\
   (true = true \/ true = false ->
      trace w' = ([] ++ [CIsVisible "main"; CShow "main"; CSetFocus "main"])%list /\
      exists y, windows w' !! "main" = Some y /\ w_visible y = true /\ w_focused y = true)).
Proof.
  split; [reflexivity|].
  exact (tray_click_main_window (mkFaults false false false false false false true false false false false)
           (mkWorld None false (<["main" := mkWin 0 None true false []]> ∅) false 1 None [])
           (mkWin 0 None true false []) eq_refl).
Defined.

(** C10: on a left-button release with no window ["main"] in the registry,
    the tray click handler changes nothing and issues no call. *)
Theorem tray_click_without_main (F : Faults) (w : World) :
  windows w !! "main" = None ->
  on_tray_icon_event F (Click Left Up) w = (tt, w).
Proof. intros H. unfold_cmds. simpl. rewrite H. reflexivity. Qed.

Lemma tray_click_without_main_witness :
  windows world_with_old_note !! "main" = None /\
  on_tray_icon_event no_faults (Click Left Up) world_with_old_note = (tt, world_with_old_note).
Proof.
  split; [vm_compute; reflexivity|].
  apply (tray_click_without_main no_faults world_with_old_note). vm_compute. reflexivity.
Defined.

Lemma toggle_auto_launch_checked (F : Faults) (w : World) :
  checked (snd (toggle_auto_launch F w)) = checked w.
Proof.
  destruct w as [reg os ws ck ns ec tr]. unfold_cmds; simpl.
  destruct reg; simpl; [|reflexivity].
  destruct (f_is_enabled F), os, (f_enable F), (f_disable F); reflexivity.
Qed.

Lemma menu_get_check_toggle : menu_get_check "toggle_autostart" = Some "toggle_autostart".
Proof. reflexivity. Qed.

(** C5: for the menu item [toggle_autostart], the handler runs
    [toggle_auto_launch]; on [Ok b] it sets the checkbox to [b] (the
    checkbox is [b] afterwards unless [set_checked] itself fails), and on
    an error the checkbox is left unchanged and nothing more is done. *)
Theorem menu_toggle_sets_checkbox (F : Faults) (w : World) :
  let '(r, w1) := toggle_auto_launch F w in
  let '(_, w') := on_menu_event F "toggle_autostart" w in
  match r with
  | Ok b =>
      trace w' = (trace w1 ++ [CSetChecked b])%list /\
      checked w' = (if f_set_checked F then checked w else b)
  | Err _ => w' = w1 /\ checked w' = checked w
  end.
Proof.
  pose proof (toggle_auto_launch_checked F w) as Hc.
  unfold on_menu_event. case_bool_decide; [|congruence].
  unfold bind at 1. destruct (toggle_auto_launch F w) as [r w1]. simpl in Hc.
  rewrite menu_get_check_toggle.
  destruct r as [b|e]; [|split; [reflexivity | exact Hc]].
  unfold_cmds. destruct (f_set_checked F); simpl; split; auto.
Qed.

(** ** Concurrent toggles *)

Module ConcurrentFacts.
Import Concurrent.

Lemma upd_same f t p : upd f t p t = p.
Proof. destruct t; reflexivity. Qed.

Lemma upd_other f t p : upd f t p (other t) = f (other t).
Proof. destruct t; reflexivity. Qed.

Lemma other_other t : other (other t) = t.
Proof. destruct t; reflexivity. Qed.

Lemma tid_cases t0 t : t0 = t \/ t0 = other t.
Proof. destruct t0, t; auto. Qed.

Lemma lock_holder s t :
  lock_ok s -> in_cs (pcs s t) = true ->
  lock s = Some t /\ in_cs (pcs s (other t)) = false.
Proof.
  unfold lock_ok. destruct (lock s) as [t'|]; intros HL Hc.
  - destruct HL as [H1 H2]. destruct (tid_cases t t') as [->| ->]; [auto|].
    congruence.
  - rewrite HL in Hc. discriminate.
Qed.

Lemma al_is_enabled_spec F w :
  f_is_enabled F = false ->
  exists w', al_is_enabled F w = (Ok (os_enabled w), w') /\ os_enabled w' = os_enabled w.
Proof. intros H. unfold_cmds. rewrite H. eexists; split; reflexivity. Qed.

Lemma al_flip_spec F w (b : bool) :
  exists r w', (if b then al_disable F else al_enable F) w = (r, w') /\
    match r with
    | Ok _ => os_enabled w' = negb b
    | Err _ => os_enabled w' = os_enabled w
    end.
Proof.
  unfold_cmds. destruct b, (f_disable F), (f_enable F); simpl;
    do 2 eexists; split; reflexivity.
Qed.

Ltac tid_split t0 t :=
  destruct (tid_cases t0 t) as [->| ->];
  rewrite ?upd_same, ?upd_other, ?other_other in *.

Lemma inv_init w : Inv (init w).
Proof.
  split; [intros t; reflexivity|]. split; intros; discriminate.
Qed.

Lemma inv_step tf s s' :
  (forall t, f_is_enabled (tf t) = false) ->
  Inv s -> step tf s s' -> Inv s'.
Proof.
  intros Hq [HL [HQ HF]] Hs.
  destruct Hs as [t s Hp Hl | t s Hp Hr | t s al Hp Hr | t s b Hp].
  - (* taking the guard *)
    unfold lock_ok in HL; rewrite Hl in HL.
    split; [|split].
    + unfold lock_ok; simpl. rewrite upd_same, upd_other. auto.
    + intros t0 b; simpl. tid_split t0 t; [discriminate | apply HQ].
    + intros t0 b r; simpl. tid_split t0 t; [discriminate|].
      intros Hf. destruct (HF _ _ _ Hf) as [Hr Ho]. split; [exact Hr|].
      unfold other_ok in *; simpl in *. rewrite other_other, upd_same in *.
      rewrite Hp in Ho. exact Ho.
  - (* registrar absent: error, guard dropped *)
    destruct (lock_holder s t HL) as [Hl Ho]; [rewrite Hp; reflexivity|].
    split; [|split].
    + unfold lock_ok; simpl. intros t0. tid_split t0 t; [reflexivity | exact Ho].
    + intros t0 b; simpl. tid_split t0 t; [discriminate | apply HQ].
    + intros t0 b r; simpl. tid_split t0 t; [discriminate|].
      intros Hf. destruct (HF _ _ _ Hf) as [Hr' Hoo]. split; [exact Hr'|].
      unfold other_ok in *; simpl in *. rewrite other_other, upd_same in *.
      rewrite Hp in Hoo. exact Hoo.
  - (* the enabled-state query *)
    destruct (lock_holder s t HL) as [Hl Ho]; [rewrite Hp; reflexivity|].
    destruct (al_is_enabled_spec (tf t) (world s) (Hq t)) as [w' [Hcall Hos]].
    rewrite Hcall. simpl.
    split; [|split].
    + unfold lock_ok; simpl. rewrite Hl, upd_same, upd_other. auto.
    + intros t0 b; simpl. tid_split t0 t.
      * intros Hb. injection Hb as <-. exact Hos.
      * intros Hb. rewrite Hb in Ho. discriminate.
    + intros t0 b r; simpl. tid_split t0 t; [discriminate|].
      intros Hf. destruct (HF _ _ _ Hf) as [Hr' Hoo]. split; [exact Hr'|].
      unfold other_ok in *; simpl in *. rewrite other_other, upd_same in *.
      rewrite Hp in Hoo. rewrite Hos. exact Hoo.
  - (* the enable/disable call, guard dropped *)
    destruct (lock_holder s t HL) as [Hl Ho]; [rewrite Hp; reflexivity|].
    pose proof (HQ _ _ Hp) as Hb.
    destruct (al_flip_spec (tf t) (world s) b) as [r [w' [Hcall Hos]]].
    rewrite Hcall. simpl.
    split; [|split].
    + unfold lock_ok; simpl. intros t0. tid_split t0 t; [reflexivity | exact Ho].
    + intros t0 b0; simpl. tid_split t0 t; [discriminate|].
      intros Hb0. rewrite Hb0 in Ho. discriminate.
    + intros t0 b0 r0; simpl. tid_split t0 t.
      * intros Hf. destruct r as [u|e]; [|discriminate].
        injection Hf as <- <-. split; [reflexivity|].
        unfold other_ok; simpl. rewrite upd_other.
        destruct (pcs s (other t)) as [| | |[b'|] [r'|e']] eqn:Hpo; try exact Hos.
        destruct (HF _ _ _ Hpo) as [_ Hoo]. unfold other_ok in Hoo.
        rewrite other_other, Hp in Hoo. simpl in Hoo. rewrite Hb in Hoo. rewrite Hoo.
        destruct b'; reflexivity.
      * intros Hf. destruct (HF _ _ _ Hf) as [Hr' Hoo]. split; [exact Hr'|].
        unfold other_ok in *; simpl in *. rewrite other_other, upd_same in *.
        rewrite Hp in Hoo. simpl in Hoo. rewrite Hb in Hoo.
        destruct r as [u|e]; simpl.
        -- exact Hoo.
        -- rewrite Hos, Hb. exact Hoo.
Qed.

Lemma inv_reachable tf s s' :
  (forall t, f_is_enabled (tf t) = false) ->
  rtc (step tf) s s' -> Inv s -> Inv s'.
Proof.
  intros Hq Hr. induction Hr as [x|x y z Hxy Hyz IH]; [auto|].
  intros Hx. apply IH. exact (inv_step tf x y Hq Hx Hxy).
Qed.

(** A single caller running alone performs exactly [toggle_auto_launch]. *)
Lemma solo_run_is_toggle (tf : Tid -> Faults) (w : World) (al : AutoLaunch) :
  registrar w = Some al ->
  exists s b, rtc (step tf) (init w) s /\
    pcs s T1 = Finished (Some b) (fst (toggle_auto_launch (tf T1) w)) /\
    world s = snd (toggle_auto_launch (tf T1) w).
Proof.
  intros Hr.
  destruct (al_is_enabled (tf T1) w) as [e w1] eqn:He.
  destruct ((if unwrap_or e false then al_disable (tf T1) else al_enable (tf T1)) w1)
    as [r w2] eqn:Hf.
  eexists (mkSys None w2 (upd (upd (upd (fun _ => Start) T1 Holding) T1
             (Queried (unwrap_or e false))) T1
             (Finished (Some (unwrap_or e false))
                (match r with Ok _ => Ok (negb (unwrap_or e false)) | Err e => Err e end)))).
  exists (unwrap_or e false).
  assert (Ht : toggle_auto_launch (tf T1) w =
               ((match r with Ok _ => Ok (negb (unwrap_or e false)) | Err e => Err e end), w2)).
  { unfold toggle_auto_launch, bind, get, ret. cbv beta. rewrite Hr. cbv beta.
    rewrite He. cbv beta iota.
    destruct (unwrap_or e false); rewrite Hf; destruct r; reflexivity. }
  rewrite Ht. split; [|split; reflexivity].
  eapply rtc_l; [apply (step_lock tf T1 (init w)); reflexivity|].
  eapply rtc_l; [apply (step_query tf T1 _ al); [reflexivity | exact Hr]|].
  cbn [world lock pcs init]. rewrite He.
  eapply rtc_l; [apply (step_act tf T1 _ (unwrap_or e false)); reflexivity|].
  cbn [world lock pcs]. rewrite Hf. apply rtc_refl.
Qed.

(** The mutex part of the invariant holds on every run, whatever the
    platform calls answer. *)
Lemma lock_ok_step tf s s' : lock_ok s -> step tf s s' -> lock_ok s'.
Proof.
  intros HL Hs.
  destruct Hs as [t s Hp Hl | t s Hp Hr | t s al Hp Hr | t s b Hp].
  - unfold lock_ok in *; rewrite Hl in HL; simpl.
    rewrite upd_same, upd_other. auto.
  - destruct (lock_holder s t HL) as [Hl Ho]; [rewrite Hp; reflexivity|].
    unfold lock_ok; simpl. intros t0. tid_split t0 t; [reflexivity | exact Ho].
  - destruct (lock_holder s t HL) as [Hl Ho]; [rewrite Hp; reflexivity|].
    destruct (al_is_enabled (tf t) (world s)) as [e w'].
    unfold lock_ok; simpl. rewrite Hl, upd_same, upd_other. auto.
  - destruct (lock_holder s t HL) as [Hl Ho]; [rewrite Hp; reflexivity|].
    destruct ((if b then al_disable (tf t) else al_enable (tf t)) (world s)) as [r w'].
    unfold lock_ok; simpl. intros t0. tid_split t0 t; [reflexivity | exact Ho].
Qed.

Lemma lock_ok_reachable tf w s : rtc (step tf) (init w) s -> lock_ok s.
Proof.
  intros Hr. assert (H0 : lock_ok (init w)) by (intros t; reflexivity).
  induction Hr as [x|x y z Hxy Hyz IH]; [exact H0|].
  apply IH. exact (lock_ok_step tf x y H0 Hxy).
Qed.

(** C9 (amended): the whole body of [toggle_auto_launch] runs under the
    one mutex over the registrar handle, so on every run, whatever the
    platform calls answer, two concurrent callers are never both inside
    it; when the enabled-state queries succeed, two concurrent toggles
    that both succeed never start from the same state: each one's
    before-state is the state the other left. *)
Theorem toggle_serialized (tf : Tid -> Faults) (w : World) (s : Sys) :
  rtc (step tf) (init w) s ->
  ~ (in_cs (pcs s T1) = true /\ in_cs (pcs s T2) = true) /\
  ((forall t, f_is_enabled (tf t) = false) ->
   forall b1 r1 b2 r2,
     pcs s T1 = Finished (Some b1) (Ok r1) ->
     pcs s T2 = Finished (Some b2) (Ok r2) ->
     b1 <> b2 /\ r1 = b2 /\ r2 = b1).
Proof.
  intros Hr. split.
  - pose proof (lock_ok_reachable tf w s Hr) as HL.
    intros [H1 H2]. unfold lock_ok in HL. destruct (lock s) as [[|]|].
    + destruct HL as [_ HL]. simpl in HL. congruence.
    + destruct HL as [_ HL]. simpl in HL. congruence.
    + rewrite HL in H1. discriminate.
  - intros Hq b1 r1 b2 r2 H1 H2.
    destruct (inv_reachable tf _ _ Hq Hr (inv_init w)) as [_ [_ HF]].
    destruct (HF _ _ _ H1) as [Hr1 Ho1]. destruct (HF _ _ _ H2) as [Hr2 _].
    unfold other_ok in Ho1. simpl in Ho1. rewrite H2 in Ho1.
    subst. destruct b1; simpl; repeat split; discriminate.
Qed.

Lemma toggle_serialized_witness :
  exists s, rtc (step (fun _ => no_faults)) (init serial_world) s /\
    pcs s T1 = Finished (Some false) (Ok true) /\
    pcs s T2 = Finished (Some true) (Ok false) /\
    ~ (in_cs (pcs s T1) = true /\ in_cs (pcs s T2) = true) /\
    (forall b1 r1 b2 r2,
       pcs s T1 = Finished (Some b1) (Ok r1) ->
       pcs s T2 = Finished (Some b2) (Ok r2) ->
       b1 <> b2 /\ r1 = b2 /\ r2 = b1).
Proof.
  eexists.
  match goal with |- rtc ?R ?x ?y /\ _ => assert (Hr : rtc R x y) end.
  { eapply rtc_l; [apply (step_lock _ T1); reflexivity|].
    eapply rtc_l; [apply (step_query _ T1 _ installed); reflexivity|].
    eapply rtc_l; [eapply (step_act _ T1); reflexivity|].
    eapply rtc_l; [apply (step_lock _ T2); reflexivity|].
    eapply rtc_l; [apply (step_query _ T2 _ installed); reflexivity|].
    eapply rtc_l; [eapply (step_act _ T2); reflexivity|].
    apply rtc_refl. }
  split; [exact Hr|]. split; [reflexivity|]. split; [reflexivity|].
  destruct (toggle_serialized (fun _ => no_faults) serial_world _ Hr) as [Hme Hser].
  split; [exact Hme|]. exact (Hser (fun _ => eq_refl)).
Defined.

(** C9 counterexample: with the registration enabled and both
    enabled-state queries failing, two toggles run one after the other
    under the mutex both succeed, both from the before-state [false]: the
    second does not observe the state the first left. *)
Lemma toggle_query_failure_same_before :
  exists s, rtc (step (fun _ => query_fails)) (init enabled_world) s /\
    os_enabled enabled_world = true /\
    pcs s T1 = Finished (Some false) (Ok true) /\
    pcs s T2 = Finished (Some false) (Ok true) /\
    os_enabled (world s) = true.
Proof.
  eexists. split.
  { eapply rtc_l; [apply (step_lock _ T1); reflexivity|].
    eapply rtc_l; [apply (step_query _ T1 _ installed); reflexivity|].
    eapply rtc_l; [eapply (step_act _ T1); reflexivity|].
    eapply rtc_l; [apply (step_lock _ T2); reflexivity|].
    eapply rtc_l; [apply (step_query _ T2 _ installed); reflexivity|].
    eapply rtc_l; [eapply (step_act _ T2); reflexivity|].
    apply rtc_refl. }
  repeat split.
Qed.

End ConcurrentFacts.

(** ** Further properties of the commands and handlers *)

(** [toggle_auto_launch] touches nothing but the OS registration: the
    registrar, the windows, the checkbox and the exit code are unchanged,
    and the calls it issues are none, the query then [enable], or the query
    then [disable]; it never issues both. *)
Theorem toggle_auto_launch_frame (F : Faults) (w : World) :
  let '(r, w') := toggle_auto_launch F w in
  registrar w' = registrar w /\ windows w' = windows w /\ checked w' = checked w /\
  next_serial w' = next_serial w /\ exit_code w' = exit_code w /\
  (trace w' = trace w \/
   trace w' = (trace w ++ [CIsEnabled; CEnable])%list \/
   trace w' = (trace w ++ [CIsEnabled; CDisable])%list).
Proof.
  destruct w as [reg os ws ck ns ec tr]. unfold_cmds; simpl.
  destruct reg; simpl; [|repeat split; auto].
  destruct (f_is_enabled F), os, (f_enable F), (f_disable F); simpl;
    repeat split; rewrite <- ?app_assoc; auto.
Qed.

(** A failed [toggle_auto_launch] leaves the OS registration as it was:
    there is no partial toggle. *)
Theorem toggle_auto_launch_error_keeps_state (F : Faults) (w : World) :
  let '(r, w') := toggle_auto_launch F w in
  forall e, r = Err e -> os_enabled w' = os_enabled w.
Proof.
  destruct w as [reg os ws ck ns ec tr]. unfold_cmds; simpl.
  destruct reg; simpl; [|reflexivity].
  destruct (f_is_enabled F), os, (f_enable F), (f_disable F); simpl;
    intros e He; try discriminate; reflexivity.
Qed.

(** Start-up in degraded mode: when the executable path cannot be obtained
    or is not valid UTF-8, or the auto-launch builder fails, no registrar
    is stored, no OS query is issued, the checkbox starts unchecked, and a
    later toggle reports ["AutoLaunch not initialized"] and changes nothing. *)
Theorem setup_auto_launch_degraded (F G : Faults) (exe : result (option string) string)
    (al_build_fails : bool) (w : World) :
  match exe with Ok (Some _) => al_build_fails = true | _ => True end ->
  let '(_, w') := setup_auto_launch F exe al_build_fails w in
  registrar w' = None /\ checked w' = false /\ trace w' = trace w /\
  os_enabled w' = os_enabled w /\
  toggle_auto_launch G w' = (Err "AutoLaunch not initialized", w').
Proof.
  intros Hx. destruct w as [reg os ws ck ns ec tr].
  destruct exe as [[p|]|e]; [subst al_build_fails| |]; unfold_cmds; simpl;
    repeat split.
Qed.

Lemma setup_auto_launch_degraded_witness :
  True /\
  (let '(_, w') := setup_auto_launch no_faults (Ok None) false serial_world in
   registrar w' = None /\ checked w' = false /\ trace w' = trace serial_world /\
   os_enabled w' = os_enabled serial_world /\
   toggle_auto_launch no_faults w' = (Err "AutoLaunch not initialized", w')).
Proof.
  split; [exact I|].
  exact (setup_auto_launch_degraded no_faults no_faults (Ok None) false serial_world I).
Defined.

(** Start-up with a usable executable path: the registrar is built for the
    application name ["luWidget"] and that path, and when the OS query
    succeeds the checkbox starts out equal to the OS registration. *)
Theorem setup_auto_launch_ok (F : Faults) (p : string) (w : World) :
  f_is_enabled F = false ->
  let '(_, w') := setup_auto_launch F (Ok (Some p)) false w in
  registrar w' = Some (mkAutoLaunch "luWidget" p) /\
  checked w' = os_enabled w /\ os_enabled w' = os_enabled w /\
  trace w' = (trace w ++ [CIsEnabled])%list.
Proof.
  intros Hq. destruct w as [reg os ws ck ns ec tr]. unfold_cmds; simpl.
  rewrite Hq. simpl. repeat split.
Qed.

Lemma setup_auto_launch_ok_witness :
  f_is_enabled no_faults = false /\
  (let '(_, w') := setup_auto_launch no_faults (Ok (Some "/opt/luWidget")) false enabled_world in
   registrar w' = Some (mkAutoLaunch "luWidget" "/opt/luWidget") /\
   checked w' = os_enabled enabled_world /\ os_enabled w' = os_enabled enabled_world /\
   trace w' = (trace enabled_world ++ [CIsEnabled])%list).
Proof.
  split; [reflexivity|].
  exact (setup_auto_launch_ok no_faults "/opt/luWidget" enabled_world eq_refl).
Defined.

(** When every call succeeds, a toggle from the tray menu flips the OS
    registration and leaves the checkbox equal to it. *)
Theorem menu_toggle_syncs_checkbox (F : Faults) (w : World) (al : AutoLaunch) :
  registrar w = Some al ->
  f_is_enabled F = false -> f_enable F = false -> f_disable F = false ->
  f_set_checked F = false ->
  let '(_, w') := on_menu_event F "toggle_autostart" w in
  os_enabled w' = negb (os_enabled w) /\ checked w' = os_enabled w'.
Proof.
  intros Hr Hq He Hd Hs.
  destruct w as [reg os ws ck ns ec tr]; simpl in Hr; subst.
  unfold on_menu_event. case_bool_decide; [|congruence].
  rewrite menu_get_check_toggle. unfold_cmds; simpl. rewrite Hq; simpl.
  destruct os; simpl; [rewrite Hd | rewrite He]; simpl; rewrite Hs; simpl;
    split; reflexivity.
Qed.

Lemma menu_toggle_syncs_checkbox_witness :
  registrar serial_world = Some installed /\
  (let '(_, w') := on_menu_event no_faults "toggle_autostart" serial_world in
   os_enabled w' = negb (os_enabled serial_world) /\ checked w' = os_enabled w').
Proof.
  split; [reflexivity|].
  exact (menu_toggle_syncs_checkbox no_faults serial_world installed
           eq_refl eq_refl eq_refl eq_refl eq_refl).
Defined.

Ltac pick_disjunct :=
  solve [repeat (first [left; reflexivity | right]); reflexivity].

(** The tray menu handler never touches a window or the window serials and
    never replaces the registrar; only [quit] sets the exit code, and only
    [toggle_autostart] changes the OS registration or the checkbox. *)
Theorem menu_event_frame (F : Faults) (id : string) (w : World) :
  let '(_, w') := on_menu_event F id w in
  windows w' = windows w /\ next_serial w' = next_serial w /\
  registrar w' = registrar w /\
  (id <> "quit" -> exit_code w' = exit_code w) /\
  (id <> "toggle_autostart" -> os_enabled w' = os_enabled w /\ checked w' = checked w).
Proof.
  destruct w as [reg os ws ck ns ec tr]. unfold on_menu_event.
  case_bool_decide as Ht.
  - rewrite menu_get_check_toggle. unfold_cmds; simpl.
    destruct reg; simpl;
      [destruct (f_is_enabled F), os, (f_enable F), (f_disable F), (f_set_checked F)|];
      simpl; split_and!; try reflexivity; intros Hn; congruence.
  - case_bool_decide as Hq; unfold_cmds; simpl;
      split_and!; try reflexivity; intros Hn; try congruence; split; reflexivity.
Qed.


(** The calls one tray event issues: nothing, or a visibility query on
    ["main"] followed either by [hide] alone or by [show] then
    [set_focus]; it never both hides and shows, and it calls nothing on
    any other window. *)
Theorem tray_event_calls (F : Faults) (ev : TrayIconEvent) (w : World) :
  let '(_, w') := on_tray_icon_event F ev w in
  trace w' = trace w \/
  trace w' = (trace w ++ [CIsVisible "main"; CHide "main"])%list \/
  trace w' = (trace w ++ [CIsVisible "main"; CShow "main"; CSetFocus "main"])%list.
Proof.
  destruct w as [reg os ws ck ns ec tr].
  destruct ev as [[] []| [] | | |]; simpl; try (left; reflexivity).
  unfold_cmds; simpl.
  destruct (ws !! "main") as [x|] eqn:Hm; simpl; [| left; reflexivity].
  rewrite Hm; simpl.
  destruct (f_is_visible F), (w_visible x), (f_show F), (f_set_focus F), (f_hide F);
    simpl; rewrite <- ?app_assoc; simpl; pick_disjunct.
Qed.

(** The tray handler never touches the autostart state or the checkbox,
    never creates or removes a window, and changes no window but ["main"]. *)
Theorem tray_click_frame (F : Faults) (ev : TrayIconEvent) (w : World) :
  let '(_, w') := on_tray_icon_event F ev w in
  registrar w' = registrar w /\ os_enabled w' = os_enabled w /\
  checked w' = checked w /\ next_serial w' = next_serial w /\
  exit_code w' = exit_code w /\
  dom (windows w') = dom (windows w) /\
  (forall l, l <> "main" -> windows w' !! l = windows w !! l).
Proof.
  destruct w as [reg os ws ck ns ec tr].
  destruct ev as [[] []| [] | | |]; simpl; try (repeat split; reflexivity).
  unfold_cmds; simpl.
  destruct (ws !! "main") as [x|] eqn:Hm; simpl; [| split_and!; reflexivity].
  rewrite Hm; simpl.
  destruct (f_is_visible F), (w_visible x), (f_show F), (f_set_focus F), (f_hide F);
    simpl; split_and!; try reflexivity; rewrite ?dom_alter_L; try reflexivity;
    intros l Hl; rewrite ?lookup_alter_ne by congruence; reflexivity.
Qed.

(** Two left clicks on the tray with every call succeeding: a visible main
    window is hidden by the first and shown and focused again by the
    second. *)
Theorem tray_click_twice (w : World) (x : Win) :
  windows w !! "main" = Some x -> w_visible x = true ->
  let '(_, w1) := on_tray_icon_event no_faults (Click Left Up) w in
  let '(_, w2) := on_tray_icon_event no_faults (Click Left Up) w1 in
  (exists y, windows w1 !! "main" = Some y /\ w_visible y = false) /\
  (exists z, windows w2 !! "main" = Some z /\ w_visible z = true /\ w_focused z = true).
Proof.
  intros Hx Hv. destruct w as [reg os ws ck ns ec tr]; simpl in Hx.
  unfold_cmds; simpl. rewrite Hx; simpl. rewrite Hx; simpl.
  destruct x as [sr cf vis foc sc]; simpl in Hv; subst vis; simpl.
  map_simpl; rewrite ?Hx; simpl. map_simpl; rewrite ?Hx; simpl.
  map_simpl; rewrite ?Hx; simpl.
  split; eexists; split_and!; reflexivity.
Qed.

Lemma tray_click_twice_witness :
  windows (mkWorld None false (<["main" := mkWin 0 None true false []]> ∅) false 1 None [])
    !! "main" = Some (mkWin 0 None true false []) /\
  w_visible (mkWin 0 None true false []) = true /\
  (let '(_, w1) := on_tray_icon_event no_faults (Click Left Up)
                     (mkWorld None false (<["main" := mkWin 0 None true false []]> ∅) false 1 None []) in
   let '(_, w2) := on_tray_icon_event no_faults (Click Left Up) w1 in
   (exists y, windows w1 !! "main" = Some y /\ w_visible y = false) /\
   (exists z, windows w2 !! "main" = Some z /\ w_visible z = true /\ w_focused z = true)).
Proof.
  split; [reflexivity|]. split; [reflexivity|].
  exact (tray_click_twice (mkWorld None false (<["main" := mkWin 0 None true false []]> ∅) false 1 None [])
           (mkWin 0 None true false []) eq_refl eq_refl).
Defined.

(** [show_notification] touches no window but ["notification"] and never
    the autostart state or the checkbox. *)
Theorem show_notification_frame (F : Faults) (message : string) (w : World) :
  let '(_, w') := show_notification F message w in
  registrar w' = registrar w /\ os_enabled w' = os_enabled w /\
  checked w' = checked w /\ exit_code w' = exit_code w /\
  (forall l, l <> "notification" -> windows w' !! l = windows w !! l).
Proof.
  destruct w as [reg os ws ck ns ec tr]. unfold_cmds; simpl.
  repeat case_match; simplify_eq; simpl; repeat split; intros l Hl;
    rewrite ?lookup_alter_ne, ?lookup_insert_ne, ?lookup_delete_ne by congruence;
    reflexivity.
Qed.

(** The same for [close_notification]. *)
Theorem close_notification_frame (F : Faults) (w : World) :
  let '(_, w') := close_notification F w in
  registrar w' = registrar w /\ os_enabled w' = os_enabled w /\
  checked w' = checked w /\ next_serial w' = next_serial w /\
  exit_code w' = exit_code w /\
  (forall l, l <> "notification" -> windows w' !! l = windows w !! l).
Proof.
  destruct w as [reg os ws ck ns ec tr]. unfold_cmds; simpl.
  destruct (ws !! "notification"); simpl; [destruct (f_close F); simpl|];
    split_and!; try reflexivity; intros l Hl;
    rewrite ?lookup_delete_ne by congruence; reflexivity.
Qed.

(** With a working [close], closing the notification window after
    [show_notification] leaves exactly the windows there were before,
    minus any earlier notification window, whether or not the build or
    the script succeeded. *)
Theorem show_then_close_notification (F : Faults) (message : string) (w : World) :
  f_close F = false ->
  let '(_, w1) := show_notification F message w in
  let '(_, w2) := close_notification F w1 in
  windows w2 = delete "notification" (windows w).
Proof.
  intros Hc. destruct w as [reg os ws ck ns ec tr]. unfold_cmds; simpl.
  destruct (ws !! "notification") eqn:Hn; simpl; rewrite ?Hc; simpl;
    rewrite ?lookup_delete_eq, ?Hn; simpl;
    destruct (f_build F); simpl; rewrite ?lookup_delete_eq, ?Hn, ?Hc; simpl;
    try (rewrite delete_id by (rewrite lookup_delete_eq; reflexivity); reflexivity);
    try (rewrite delete_id by exact Hn; reflexivity).
  all: destruct (f_eval F); simpl; map_simpl; rewrite ?Hc; simpl.
  all: rewrite ?delete_alter_eq, ?delete_insert_eq, ?delete_delete_eq; try reflexivity.
  all: rewrite delete_id by exact Hn; reflexivity.
Qed.

Lemma show_then_close_notification_witness :
  no_faults.(f_close) = false /\
  (let '(_, w1) := show_notification no_faults "hi" world_with_old_note in
   let '(_, w2) := close_notification no_faults w1 in
   windows w2 = delete "notification" (windows world_with_old_note)).
Proof.
  split; [reflexivity|].
  exact (show_then_close_notification no_faults "hi" world_with_old_note eq_refl).
Defined.

(** With a working [close], [close_notification] is idempotent: a second
    call finds no window and changes nothing. *)
Theorem close_notification_idempotent (F : Faults) (w : World) :
  f_close F = false ->
  let '(_, w1) := close_notification F w in
  close_notification F w1 = (tt, w1).
Proof.
  intros Hc. destruct w as [reg os ws ck ns ec tr]. unfold_cmds; simpl.
  destruct (ws !! "notification") eqn:Hn; simpl; rewrite ?Hc; simpl.
  - rewrite lookup_delete_eq; reflexivity.
  - rewrite Hn; reflexivity.
Qed.

Lemma close_notification_idempotent_witness :
  no_faults.(f_close) = false /\
  (let '(_, w1) := close_notification no_faults world_with_old_note in
   close_notification no_faults w1 = (tt, w1)).
Proof.
  split; [reflexivity|].
  exact (close_notification_idempotent no_faults world_with_old_note eq_refl).
Defined.

(** Two notifications in a row with every call succeeding: both calls
    return [Ok], and the one notification window left is the second one
    built, showing only the second message. *)
Theorem show_notification_twice (m1 m2 : string) (w : World) :
  let '(r1, w1) := show_notification no_faults m1 w in
  let '(r2, w2) := show_notification no_faults m2 w1 in
  r1 = Ok tt /\ r2 = Ok tt /\
  windows w2 !! "notification" =
    Some (mkWin (S (next_serial w)) (Some notification_config) true false
            [notification_script m2]).
Proof.
  destruct w as [reg os ws ck ns ec tr]. unfold_cmds; simpl.
  destruct (ws !! "notification") eqn:Hn; simpl; rewrite ?lookup_delete_eq, ?Hn; simpl;
    map_simpl; map_simpl; map_simpl; split_and!; reflexivity.
Qed.

Lemma string_forall_app (p : ascii -> bool) (a b : string) :
  string_forall p (a ++ b) = string_forall p a && string_forall p b.
Proof.
  induction a as [|c a IH]; simpl; [reflexivity|]. rewrite IH. apply andb_assoc.
Qed.

Lemma hex_digit_not_control (n : nat) : not_control (hex_digit n) = true.
Proof. do 16 (destruct n as [|n]; [reflexivity|]). reflexivity. Qed.

Lemma escape_char_not_control (c : ascii) : string_forall not_control (escape_char c) = true.
Proof.
  unfold escape_char.
  destruct (Nat.eqb _ 34); [reflexivity|]. destruct (Nat.eqb _ 92); [reflexivity|].
  destruct (Nat.eqb _ 8); [reflexivity|]. destruct (Nat.eqb _ 9); [reflexivity|].
  destruct (Nat.eqb _ 10); [reflexivity|]. destruct (Nat.eqb _ 12); [reflexivity|].
  destruct (Nat.eqb _ 13); [reflexivity|].
  destruct (Nat.ltb (nat_of_ascii c) 32) eqn:Hl.
  - simpl. rewrite !hex_digit_not_control. reflexivity.
  - simpl. unfold not_control. rewrite andb_true_r.
    apply Nat.ltb_ge in Hl. apply Nat.leb_le. exact Hl.
Qed.

Lemma string_app_cancel_l (p a b : string) : p ++ a = p ++ b -> a = b.
Proof. induction p as [|c p IH]; simpl; [auto|]. intros H. injection H. exact IH. Qed.

(** The JSON literal that [show_notification] splices into its script
    never contains a raw control character (below 0x20): every such byte
    of the message is escaped, so the script stays on one line. *)
Theorem json_to_string_no_control (s : string) :
  string_forall not_control (json_to_string s) = true.
Proof.
  unfold json_to_string. simpl. rewrite string_forall_app. simpl.
  induction s as [|c s IH]; [reflexivity|].
  cbn [json_escape]. rewrite string_forall_app, escape_char_not_control. exact IH.
Qed.

(** Different messages give different JSON literals, so different
    notification scripts. *)
Theorem notification_script_injective (m1 m2 : string) :
  notification_script m1 = notification_script m2 -> m1 = m2.
Proof.
  unfold notification_script. intros H.
  apply string_app_cancel_l in H.
  assert (Hd := f_equal json_decode_string H).
  rewrite !json_decode_to_string in Hd. congruence.
Qed.

Lemma notification_script_injective_witness :
  notification_script "hello" = notification_script "hello" /\ "hello" = "hello".
Proof.
  split; [reflexivity|]. apply (notification_script_injective "hello" "hello"). reflexivity.
Defined.

(** A message of plain characters (no control character, double quote or
    backslash) is copied into the JSON literal unchanged. *)
Theorem json_escape_plain (s : string) :
  string_forall json_plain_char s = true -> json_escape s = s.
Proof.
  induction s as [|c s IH]; [reflexivity|]. simpl. intros H.
  apply andb_prop in H as [Hc Hs].
  unfold json_plain_char in Hc.
  apply andb_prop in Hc as [Hc H92]. apply andb_prop in Hc as [H32 H34].
  apply Nat.leb_le in H32. apply negb_true_iff, Nat.eqb_neq in H34, H92.
  unfold escape_char.
  destruct (Nat.eqb_spec (nat_of_ascii c) 34); [lia|].
  destruct (Nat.eqb_spec (nat_of_ascii c) 92); [lia|].
  destruct (Nat.eqb_spec (nat_of_ascii c) 8); [lia|].
  destruct (Nat.eqb_spec (nat_of_ascii c) 9); [lia|].
  destruct (Nat.eqb_spec (nat_of_ascii c) 10); [lia|].
  destruct (Nat.eqb_spec (nat_of_ascii c) 12); [lia|].
  destruct (Nat.eqb_spec (nat_of_ascii c) 13); [lia|].
  destruct (Nat.ltb_spec (nat_of_ascii c) 32); [lia|].
  simpl. rewrite (IH Hs). reflexivity.
Qed.

Lemma json_escape_plain_witness :
  string_forall json_plain_char "Hello, world" = true /\ json_escape "Hello, world" = "Hello, world".
Proof.
  split; [reflexivity|]. apply json_escape_plain. reflexivity.
Defined.

(** Whenever [toggle_auto_launch] returns [Ok b], [b] is the OS
    registration state it leaves behind, even when the status query
    failed; so the value the menu handler writes into the checkbox is
    the real state. *)
Theorem toggle_auto_launch_ok_reports_state (F : Faults) (w : World) :
  let '(r, w') := toggle_auto_launch F w in
  forall b, r = Ok b -> os_enabled w' = b.
Proof.
  destruct w as [reg os ws ck ns ec tr]. unfold_cmds; simpl.
  destruct reg; simpl; [|discriminate].
  destruct (f_is_enabled F), os, (f_enable F), (f_disable F); simpl;
    intros b Hb; try discriminate; injection Hb as <-; reflexivity.
Qed.
